(** * PageRank (src/pagerank.py): shallow embedding and verification

    The Python program works on floats; it is modelled here over exact
    rationals [Q].  A Python dict is an association list whose order is the
    dict's insertion order (the order in which [for k in d] visits keys);
    a corpus maps each page to the set of pages it links to, a set being a
    list without duplicates.  The exceptions the program can raise are the
    constructors of [error]; the random draws of [sample_pagerank] are an
    explicit input. *)

From Stdlib Require Import List String ZArith QArith Qround Lia Lqa Permutation Bool.
Import ListNotations.
Open Scope Q_scope.

(** ** Dictionaries, sets, exceptions *)

Definition page := string.

(** [corpus]: page -> set of linked pages, as returned by [crawl]. *)
Definition corpus := list (page * list page).

Definition dict (A : Type) := list (page * A).

Fixpoint lookup {A : Type} (k : page) (m : dict A) : option A :=
  match m with
  | [] => None
  | (k', v) :: m' => if String.eqb k k' then Some v else lookup k m'
  end.

(** [d[k] = v]: overwrites the entry of an existing key in place, appends
    a new key at the end. *)
Fixpoint update {A : Type} (k : page) (v : A) (m : dict A) : dict A :=
  match m with
  | [] => [(k, v)]
  | (k', v') :: m' =>
      if String.eqb k k' then (k', v) :: m' else (k', v') :: update k v m'
  end.

Definition keys {A : Type} (m : dict A) : list page := map fst m.

(** [k in s] for a set [s]. *)
Definition mem (k : page) (s : list page) : bool := existsb (String.eqb k) s.

(** [len(x)] as a number used in a division. *)
Definition len {A : Type} (l : list A) : Q := inject_Z (Z.of_nat (List.length l)).

Definition sumQ (l : list Q) : Q := fold_right Qplus 0 l.

Inductive error : Type :=
| ValueError          (* [raise ValueError(...)], and [random.choices] with zero total weight *)
| IndexError          (* [random.choice] on an empty sequence *)
| KeyError            (* [d[k]] for a missing key *)
| ZeroDivisionError.

Inductive result (A : Type) : Type :=
| Ok (a : A)
| Err (e : error).
Arguments Ok {A} a.
Arguments Err {A} e.

Definition bind {A B : Type} (m : result A) (f : A -> result B) : result B :=
  match m with Ok a => f a | Err e => Err e end.

Notation "x <- m ;; k" := (bind m (fun x => k))
  (at level 61, m at next level, right associativity).

(** ** [transition_model] (lines 51-75) *)

Definition transition_model (corpus : corpus) (page : page) (damping_factor : Q)
  : result (dict Q) :=
  match lookup page corpus with
  | None => Err ValueError
  | Some links =>
      let links_prob := match links with [] => 0 | _ => damping_factor / len links end in
      let random_prob := (1 - damping_factor) / len corpus in
      Ok (map (fun p => (p, if mem p links then links_prob + random_prob else random_prob))
              (keys corpus))
  end.

(** A corpus as [crawl] builds it (spec section 3): distinct keys, every
    link set without duplicates and made of keys of the corpus. *)
Definition well_formed (c : corpus) : Prop :=
  NoDup (keys c) /\
  forall p links, In (p, links) c -> NoDup links /\ incl links (keys c).

(** ** [sample_pagerank] (lines 79-105) *)

(** The random draws of a run: draw [0] is the one of [random.choice],
    draw [S i] the one of the [i]-th call of [random.choices]. *)
Definition draws := nat -> nat.

(** [random.choice(l)]: any element of [l]; raises on an empty list. *)
Definition choice (l : list page) (i : nat) : result page :=
  match l with
  | [] => Err IndexError
  | _ => Ok (nth (i mod List.length l) l ""%string)
  end.

(** [random.choices(list(tm.keys()), tm.values())[0]]: raises when the
    total weight is not positive; otherwise the outcome is a key of
    positive weight, and any such key is a possible outcome. *)
Definition choices (tm : dict Q) (i : nat) : result page :=
  if Qle_bool (sumQ (map snd tm)) 0 then Err ValueError
  else
    let support := keys (filter (fun '(_, w) => negb (Qle_bool w 0)) tm) in
    Ok (nth (i mod List.length support) support ""%string).

(** [pageRanks[k] += 1]. *)
Definition incr (k : page) (m : dict nat) : result (dict nat) :=
  match lookup k m with
  | None => Err KeyError
  | Some v => Ok (update k (S v) m)
  end.

(** The loop [for i in range(n - 1)], [k] iterations left. *)
Fixpoint sample_loop (corpus : corpus) (damping_factor : Q) (rnd : draws)
  (i k : nat) (cur : page) (pageRanks : dict nat) : result (dict nat) :=
  match k with
  | O => Ok pageRanks
  | S k' =>
      tm <- transition_model corpus cur damping_factor ;;
      cur' <- choices tm (rnd i) ;;
      pageRanks' <- incr cur' pageRanks ;;
      sample_loop corpus damping_factor rnd (S i) k' cur' pageRanks'
  end.

(** Lines 88-100: the visit counters. *)
Definition sample_counts (corpus : corpus) (damping_factor : Q) (n : Z) (rnd : draws)
  : result (dict nat) :=
  let pageRanks := map (fun '(p, _) => (p, 0%nat)) corpus in
  cur <- choice (keys corpus) (rnd 0%nat) ;;
  pageRanks <- incr cur pageRanks ;;
  sample_loop corpus damping_factor rnd 1 (Z.to_nat (n - 1)) cur pageRanks.

(** Lines 102-103: [pageRanks[page] /= n] for every page. *)
Definition divide (pageRanks : dict nat) (n : Z) : result (dict Q) :=
  match pageRanks with
  | [] => Ok []
  | _ =>
      if Z.eqb n 0 then Err ZeroDivisionError
      else Ok (map (fun '(p, k) => (p, inject_Z (Z.of_nat k) / inject_Z n)) pageRanks)
  end.

Definition sample_pagerank (corpus : corpus) (damping_factor : Q) (n : Z) (rnd : draws)
  : result (dict Q) :=
  pageRanks <- sample_counts corpus damping_factor n rnd ;;
  divide pageRanks n.

(** The total of the visit counters. *)
Definition total (pageRanks : dict nat) : nat := fold_right Nat.add 0%nat (map snd pageRanks).

(** ** [iterate_pagerank] (lines 108-153) *)

(** [pageRanks[p]]; every key of the corpus is a key of [pageRanks], so
    the default is never used. *)
Definition get (r : dict Q) (k : page) : Q :=
  match lookup k r with Some v => v | None => 0 end.

(** Lines 126-140: the new rank of [page], read from [pageRanks] as it is
    when [page] is reached. *)
Definition new_rank (corpus : corpus) (damping_factor : Q) (pageRanks : dict Q)
  (page : page) : Q :=
  let summation :=
    fold_left
      (fun summation '(p, links0) =>
         let links := match links0 with [] => keys corpus | _ => links0 end in
         if mem page links then summation + get pageRanks p / len links else summation)
      corpus 0 in
  (1 - damping_factor) / len corpus + damping_factor * summation.

(** Line 142: [newRank] within [0.001] of the stored rank. *)
Definition within (old newRank : Q) : bool :=
  Qle_bool newRank (old + (1 # 1000)) && Qle_bool (old - (1 # 1000)) newRank.

(** Lines 126-145, one page: the stored rank is overwritten at once (kept
    in lowest terms, which does not change its value). *)
Definition visit (corpus : corpus) (damping_factor : Q) (st : dict Q * nat) (page : page)
  : dict Q * nat :=
  let '(pageRanks, converged_count) := st in
  let newRank := new_rank corpus damping_factor pageRanks page in
  let converged_count :=
    if within (get pageRanks page) newRank then S converged_count else converged_count in
  (update page (Qred newRank) pageRanks, converged_count).

(** Lines 125-145: one pass over the pages, in key order. *)
Definition pass (corpus : corpus) (damping_factor : Q) (pageRanks : dict Q)
  (converged_count : nat) : dict Q * nat :=
  fold_left (visit corpus damping_factor) (keys corpus) (pageRanks, converged_count).

(** Lines 124-150, with at most [fuel] passes ([None]: out of fuel). *)
Fixpoint iterate_loop (corpus : corpus) (damping_factor : Q) (fuel : nat)
  (pageRanks : dict Q) (converged_count : nat) : option (dict Q) :=
  match fuel with
  | O => None
  | S fuel' =>
      let '(pageRanks, converged_count) := pass corpus damping_factor pageRanks converged_count in
      if Nat.eqb converged_count (List.length corpus) then Some pageRanks
      else iterate_loop corpus damping_factor fuel' pageRanks 0
  end.

(** Lines 117-119. *)
Definition init_ranks (corpus : corpus) : dict Q :=
  map (fun '(p, _) => (p, 1 / len corpus)) corpus.

Definition iterate_pagerank (corpus : corpus) (damping_factor : Q) (fuel : nat)
  : option (dict Q) :=
  iterate_loop corpus damping_factor fuel (init_ranks corpus) 0.

Definition corpus3 : corpus :=
  [("A", ["B"]); ("B", ["A"; "C"]); ("C", ["A"])]%string.
Definition corpus3' : corpus :=
  [("C", ["A"]); ("B", ["A"; "C"]); ("A", ["B"])]%string.

(** The update of spec section 4.3, written from the spec's words (not from
    the code): [(1 - d)/N + d * sum over q linking to p of rank(q)/outDegree(q)],
    a dangling [q] contributing [rank(q)/N]. *)
Definition spec_rank_update (c : corpus) (d : Q) (rank : dict Q) (p : page) : Q :=
  (1 - d) / len c +
  d * sumQ (map (fun '(q, L) =>
                   match L with
                   | [] => get rank q / len c
                   | _ => if mem p L then get rank q / len L else 0
                   end) c).

(** A corpus with a dangling page ["A"]. *)
Definition corpus_dangling : corpus := [("A", []); ("B", ["A"])]%string.

(** ** [crawl] (lines 24-48) *)

(** [filename.endswith(".html")]. *)
Definition ends_with_html (s : string) : bool :=
  let n := String.length s in
  (5 <=? n)%nat && String.eqb (substring (n - 5) 5 s) ".html".

(** [crawl(directory)] from what it reads: [entries] lists, in
    [os.listdir] order, each directory entry's name with the links that
    [re.findall] finds in the file (the file is only read for [.html]
    names).  The file system and the regular expression are not modelled.
    [set(links) - {filename}] is the links without duplicates and without
    [filename]; the second loop replaces each value in place, keeping the
    links that are keys of [pages]. *)
Definition crawl_step (pages : corpus) (entry : string * list string) : corpus :=
  let '(filename, links) := entry in
  if ends_with_html filename
  then update filename
         (filter (fun l => negb (String.eqb l filename)) (nodup string_dec links)) pages
  else pages.

(** Lines 30-39: the first loop. *)
Definition crawl_pages (entries : list (string * list string)) : corpus :=
  fold_left crawl_step entries [].

(** Lines 42-48: the second loop. *)
Definition crawl (entries : list (string * list string)) : corpus :=
  let pages := crawl_pages entries in
  map (fun '(filename, links) =>
         (filename, filter (fun link => mem link (keys pages)) links)) pages.

Definition entries_example : list (string * list string) :=
  [("a.html", ["b.html"; "a.html"; "x.html"; "b.html"]);
   ("b.html", []); ("notes.txt", ["a.html"])]%string.

(** ** Dictionary lemmas *)

Lemma lookup_In {A : Type} (m : dict A) (k : page) (v : A) :
  lookup k m = Some v -> In (k, v) m.
Proof.
  induction m as [|[k' v'] m IH]; simpl; [discriminate|].
  destruct (String.eqb_spec k k') as [->|_]; intros H.
  - injection H as ->. now left.
  - right. now apply IH.
Qed.

Lemma lookup_None {A : Type} (m : dict A) (k : page) :
  ~ In k (keys m) -> lookup k m = None.
Proof.
  induction m as [|[k' v'] m IH]; simpl; [reflexivity|].
  intros Hn. destruct (String.eqb_spec k k') as [->|_].
  - exfalso. apply Hn. now left.
  - apply IH. intros Hin. apply Hn. now right.
Qed.

Lemma lookup_keys {A : Type} (m : dict A) (k : page) :
  In k (keys m) -> exists v, lookup k m = Some v.
Proof.
  induction m as [|[k' v'] m IH]; simpl; [contradiction|].
  intros Hin. destruct (String.eqb_spec k k') as [->|Hne].
  - now exists v'.
  - apply IH. destruct Hin as [Heq|Hin]; [congruence|exact Hin].
Qed.

Lemma keys_update {A : Type} (m : dict A) (k : page) (v : A) :
  In k (keys m) -> keys (update k v m) = keys m.
Proof.
  induction m as [|[k' v'] m IH]; simpl; [contradiction|].
  intros Hin. destruct (String.eqb_spec k k') as [->|Hne]; [reflexivity|].
  simpl. f_equal. apply IH. destruct Hin as [Heq|Hin]; [congruence|exact Hin].
Qed.

Lemma lookup_map_keys (ks : list page) (f : page -> Q) (q : page) :
  In q ks -> lookup q (map (fun p => (p, f p)) ks) = Some (f q).
Proof.
  induction ks as [|k ks IH]; simpl; [contradiction|].
  intros Hin. destruct (String.eqb_spec q k) as [->|Hne]; [reflexivity|].
  apply IH. destruct Hin as [Heq|Hin]; [congruence|exact Hin].
Qed.

Lemma keys_map_keys {B : Type} (ks : list page) (f : page -> B) :
  keys (map (fun p => (p, f p)) ks) = ks.
Proof. unfold keys. rewrite map_map. apply map_id. Qed.

Lemma mem_In (k : page) (s : list page) : mem k s = true <-> In k s.
Proof.
  unfold mem. rewrite existsb_exists. split.
  - intros [x [Hx Heq]]. apply String.eqb_eq in Heq. now subst.
  - intros Hin. exists k. split; [exact Hin|apply String.eqb_refl].
Qed.

Lemma len_keys {A : Type} (m : dict A) : len (keys m) = len m.
Proof. unfold len, keys. now rewrite length_map. Qed.

(** ** Arithmetic on counts *)

Lemma inject_S (n : nat) :
  inject_Z (Z.of_nat (S n)) == inject_Z (Z.of_nat n) + 1.
Proof. rewrite Nat2Z.inj_succ. unfold Z.succ. now rewrite inject_Z_plus. Qed.

Lemma len_pos {A : Type} (l : list A) : l <> [] -> ~ len l == 0.
Proof.
  intros Hl H. unfold len, Qeq in H. simpl in H. destruct l; [congruence|].
  simpl in H. lia.
Qed.

Lemma sumQ_cons (x : Q) (l : list Q) : sumQ (x :: l) = x + sumQ l.
Proof. reflexivity. Qed.

Lemma len_cons {A : Type} (x : A) (l : list A) : len (x :: l) == len l + 1.
Proof. apply inject_S. Qed.

Lemma sumQ_if (L ks : list page) (a b : Q) :
  sumQ (map (fun p => if mem p L then a + b else b) ks)
  == len (filter (fun p => mem p L) ks) * a + len ks * b.
Proof.
  induction ks as [|k ks IH].
  - unfold len. simpl. ring.
  - destruct (mem k L) eqn:Hk; cbn [map filter]; rewrite Hk;
      rewrite sumQ_cons, !len_cons, IH; ring.
Qed.

Lemma filter_mem_length (ks L : list page) :
  NoDup ks -> NoDup L -> incl L ks ->
  List.length (filter (fun p => mem p L) ks) = List.length L.
Proof.
  intros Hks HL Hincl. apply Permutation_length.
  apply NoDup_Permutation; [now apply NoDup_filter|exact HL|].
  intros x. rewrite filter_In, mem_In. split; [tauto|].
  intros Hx. split; [now apply Hincl|exact Hx].
Qed.

Lemma sumQ_const (ks : list page) (b : Q) :
  sumQ (map (fun _ => b) ks) == len ks * b.
Proof.
  induction ks as [|k ks IH]; [unfold len; simpl; ring|].
  cbn [map]. rewrite sumQ_cons, IH, len_cons. ring.
Qed.

(** ** [transition_model] *)

Lemma transition_model_ok (c : corpus) (p : page) (L : list page) (d : Q) :
  lookup p c = Some L ->
  transition_model c p d =
  Ok (map (fun q => (q, if mem q L
                        then (match L with [] => 0 | _ => d / len L end) + (1 - d) / len c
                        else (1 - d) / len c)) (keys c)).
Proof. intros H. unfold transition_model. now rewrite H. Qed.

Lemma map_snd_map_keys {B : Type} (ks : list page) (f : page -> B) :
  map snd (map (fun p => (p, f p)) ks) = map f ks.
Proof. rewrite map_map. reflexivity. Qed.

Lemma keys_nonempty (c : corpus) (p : page) (L : list page) :
  lookup p c = Some L -> c <> [].
Proof. intros H ->. discriminate. Qed.

(** At a dangling page every page gets [(1 - d) / N], and the values sum
    to [1 - d]. *)
Lemma transition_model_dangling (c : corpus) (p : page) (d : Q) :
  lookup p c = Some [] ->
  exists tm, transition_model c p d = Ok tm /\ keys tm = keys c /\
    (forall q, In q (keys c) -> lookup q tm = Some ((1 - d) / len c)) /\
    sumQ (map snd tm) == 1 - d.
Proof.
  intros H. eexists. split; [apply transition_model_ok, H|].
  split; [apply keys_map_keys|]. cbn [mem existsb]. split.
  - intros q Hq. now apply lookup_map_keys.
  - rewrite map_snd_map_keys, sumQ_const, len_keys. field.
    apply len_pos. eapply keys_nonempty; eauto.
Qed.

(** C1: at the dangling page ["A"] of [corpus_dangling], with damping
    factor 0.85, [transition_model] gives both pages [0.15 / 2 = 3/40],
    and the values sum to [3/20], not to 1. *)
Theorem transition_model_dangling_example :
  exists tm, transition_model corpus_dangling "A"%string (85 # 100) = Ok tm /\
    keys tm = ["A"; "B"]%string /\ Forall (fun w => w == 3 # 40) (map snd tm) /\
    sumQ (map snd tm) == 3 # 20 /\ ~ sumQ (map snd tm) == 1.
Proof.
  eexists. split; [reflexivity|]. split; [reflexivity|].
  split; [repeat constructor|]. split; [reflexivity|].
  vm_compute. discriminate.
Qed.

(** C3: for a page whose link set [L] is non-empty, every page of [L] gets
    [d / |L| + (1 - d) / N], every other page [(1 - d) / N], and the values
    sum to 1. *)
Theorem transition_model_linked (c : corpus) (p : page) (L : list page) (d : Q) :
  well_formed c -> lookup p c = Some L -> L <> [] -> 0 < d < 1 ->
  exists tm, transition_model c p d = Ok tm /\ keys tm = keys c /\
    (forall q, In q L -> lookup q tm = Some (d / len L + (1 - d) / len c)) /\
    (forall q, In q (keys c) -> ~ In q L -> lookup q tm = Some ((1 - d) / len c)) /\
    sumQ (map snd tm) == 1.
Proof.
  intros [Hnd Hwf] Hp HL _.
  destruct (Hwf p L (lookup_In _ _ _ Hp)) as [HndL Hincl].
  eexists. split; [apply transition_model_ok, Hp|].
  split; [apply keys_map_keys|]. split; [|split].
  - intros q Hq. rewrite lookup_map_keys by now apply Hincl.
    apply mem_In in Hq. rewrite Hq. destruct L; [contradiction|reflexivity].
  - intros q Hq Hn. rewrite lookup_map_keys by exact Hq.
    destruct (mem q L) eqn:Hm; [apply mem_In in Hm; contradiction|reflexivity].
  - rewrite map_snd_map_keys, sumQ_if.
    unfold len at 1. rewrite filter_mem_length by assumption. fold (len L).
    rewrite len_keys. destruct L as [|x L']; [contradiction|].
    field. split; apply len_pos; [eapply keys_nonempty; eauto|discriminate].
Qed.

(** C7: [transition_model] on a page that is not a key of the corpus
    raises (the [ValueError] "Page ... not found in corpus") and returns no
    distribution. *)
Theorem transition_model_unknown (c : corpus) (p : page) (d : Q) :
  ~ In p (keys c) -> transition_model c p d = Err ValueError.
Proof. intros H. unfold transition_model. now rewrite lookup_None. Qed.

Lemma transition_model_unknown_witness :
  ~ In "Z"%string (keys corpus3) /\
  transition_model corpus3 "Z"%string (85 # 100) = Err ValueError.
Proof.
  assert (H : ~ In "Z"%string (keys corpus3))
    by (simpl; intros Hin; repeat destruct Hin as [Hin|Hin]; discriminate || contradiction).
  split; [exact H|]. apply (transition_model_unknown corpus3 "Z"%string (85 # 100)). exact H.
Defined.

(** C10: at a dangling page the weights passed to [random.choices] are all
    equal: their total is positive, and each one, divided by the total, is
    [1 / N]: the draw is uniform over all pages. *)
Theorem choices_weights_dangling (c : corpus) (p : page) (d : Q) :
  lookup p c = Some [] -> 0 < d < 1 ->
  exists tm, transition_model c p d = Ok tm /\ keys tm = keys c /\
    0 < sumQ (map snd tm) /\
    forall q, In q (keys c) ->
      exists w, lookup q tm = Some w /\ w / sumQ (map snd tm) == 1 / len c.
Proof.
  intros Hp [_ Hd]. destruct (transition_model_dangling c p d Hp) as (tm & Htm & Hk & Hl & Hs).
  exists tm. split; [exact Htm|]. split; [exact Hk|]. split.
  - rewrite Hs. apply Qlt_minus_iff in Hd. exact Hd.
  - intros q Hq. exists ((1 - d) / len c). split; [now apply Hl|].
    rewrite Hs. field. split.
    + apply len_pos. eapply keys_nonempty; eauto.
    + intros H. apply Qlt_minus_iff in Hd. rewrite H in Hd. discriminate.
Qed.

Lemma choices_weights_dangling_witness :
  lookup "A"%string corpus_dangling = Some [] /\ 0 < 85 # 100 < 1 /\
  exists tm, transition_model corpus_dangling "A"%string (85 # 100) = Ok tm /\
    keys tm = keys corpus_dangling /\ 0 < sumQ (map snd tm) /\
    forall q, In q (keys corpus_dangling) ->
      exists w, lookup q tm = Some w /\ w / sumQ (map snd tm) == 1 / len corpus_dangling.
Proof.
  assert (Hp : lookup "A"%string corpus_dangling = Some []) by reflexivity.
  assert (Hd : 0 < 85 # 100 < 1) by (split; reflexivity).
  split; [exact Hp|]. split; [exact Hd|].
  exact (choices_weights_dangling corpus_dangling "A"%string (85 # 100) Hp Hd).
Defined.

(** ** [sample_pagerank] *)

Lemma len_gt0 {A : Type} (l : list A) : l <> [] -> 0 < len l.
Proof. intros Hl. unfold Qlt, len. simpl. destruct l; [congruence|]. simpl. lia. Qed.

Lemma random_prob_pos (c : corpus) (d : Q) : c <> [] -> d < 1 -> 0 < (1 - d) / len c.
Proof.
  intros Hc Hd. unfold Qdiv. apply Qmult_lt_0_compat; [lra|].
  apply Qinv_lt_0_compat, len_gt0, Hc.
Qed.

Lemma links_prob_nonneg (L : list page) (d : Q) :
  0 <= d -> 0 <= match L with [] => 0 | _ => d / len L end.
Proof.
  intros Hd. destruct L as [|x L]; [lra|]. unfold Qdiv.
  apply Qmult_le_0_compat; [exact Hd|]. apply Qinv_le_0_compat, Qlt_le_weak, len_gt0.
  discriminate.
Qed.

(** For a damping factor in [[0, 1)], every weight is positive. *)
Lemma transition_model_pos (c : corpus) (p : page) (L : list page) (d : Q) :
  lookup p c = Some L -> 0 <= d -> d < 1 ->
  exists tm, transition_model c p d = Ok tm /\ keys tm = keys c /\
    Forall (fun w => 0 < w) (map snd tm).
Proof.
  intros Hp Hd0 Hd1. eexists. split; [apply transition_model_ok, Hp|].
  split; [apply keys_map_keys|]. rewrite map_snd_map_keys.
  pose proof (random_prob_pos c d (keys_nonempty c p L Hp) Hd1) as Hr.
  pose proof (links_prob_nonneg L d Hd0) as Hl.
  apply Forall_map, Forall_forall. intros q _. destruct (mem q L); lra.
Qed.

Lemma sumQ_nonneg (l : list Q) : Forall (fun w => 0 < w) l -> 0 <= sumQ l.
Proof.
  induction 1 as [|x l Hx _ IH]; [apply Qle_refl|]. rewrite sumQ_cons. lra.
Qed.

Lemma sumQ_pos (l : list Q) : l <> [] -> Forall (fun w => 0 < w) l -> 0 < sumQ l.
Proof.
  intros Hl H. destruct H as [|x l Hx Hl']; [congruence|].
  rewrite sumQ_cons. pose proof (sumQ_nonneg l Hl'). lra.
Qed.

Lemma choices_in (tm : dict Q) (i : nat) :
  tm <> [] -> Forall (fun w => 0 < w) (map snd tm) ->
  exists q, choices tm i = Ok q /\ In q (keys tm).
Proof.
  intros Hne Hpos. unfold choices.
  assert (Hs : 0 < sumQ (map snd tm))
    by (apply sumQ_pos; [destruct tm; [congruence|discriminate]|exact Hpos]).
  destruct (Qle_bool (sumQ (map snd tm)) 0) eqn:Hb;
    [apply Qle_bool_iff in Hb; lra|].
  rewrite forallb_filter_id.
  - eexists. split; [reflexivity|]. apply nth_In, Nat.mod_upper_bound.
    unfold keys. rewrite length_map. destruct tm; [congruence|discriminate].
  - apply forallb_forall. intros [q w] Hin.
    assert (Hw : 0 < w)
      by (rewrite Forall_forall in Hpos; apply Hpos, (in_map snd _ _ Hin)).
    destruct (Qle_bool w 0) eqn:Hw'; [apply Qle_bool_iff in Hw'; lra|reflexivity].
Qed.

Lemma lookup_update_total (m : dict nat) (k : page) (v : nat) :
  lookup k m = Some v -> total (update k (S v) m) = S (total m).
Proof.
  induction m as [|[k' v'] m IH]; simpl; [discriminate|].
  destruct (String.eqb_spec k k') as [->|_]; intros H.
  - injection H as ->. unfold total. simpl. lia.
  - unfold total in *. simpl. rewrite (IH H). lia.
Qed.

Lemma incr_spec (m : dict nat) (k : page) :
  In k (keys m) ->
  exists m', incr k m = Ok m' /\ keys m' = keys m /\ total m' = S (total m).
Proof.
  intros Hk. destruct (lookup_keys m k Hk) as [v Hv]. unfold incr. rewrite Hv.
  eexists. split; [reflexivity|]. split.
  - now apply keys_update.
  - now apply lookup_update_total.
Qed.

(** Loop invariant: the current page and the counters' keys are the
    corpus's pages; each step adds one visit. *)
Lemma sample_loop_spec (c : corpus) (d : Q) (rnd : draws) (k : nat) :
  0 <= d -> d < 1 ->
  forall i cur m, In cur (keys c) -> keys m = keys c ->
  exists m', sample_loop c d rnd i k cur m = Ok m' /\ keys m' = keys c /\
    total m' = (total m + k)%nat.
Proof.
  intros Hd0 Hd1. induction k as [|k IH]; intros i cur m Hcur Hm.
  - exists m. simpl. repeat split; [exact Hm|lia].
  - destruct (lookup_keys c cur Hcur) as [L HL].
    destruct (transition_model_pos c cur L d HL Hd0 Hd1) as (tm & Htm & Hk & Hpos).
    assert (Htm_ne : tm <> []).
    { intros ->. simpl in Hk. rewrite <- Hk in Hcur. contradiction. }
    destruct (choices_in tm (rnd i) Htm_ne Hpos) as (q & Hq & Hqin).
    rewrite Hk, <- Hm in Hqin.
    destruct (incr_spec m q Hqin) as (m1 & Hm1 & Hk1 & Ht1).
    rewrite Hm in Hqin.
    destruct (IH (S i) q m1 Hqin (eq_trans Hk1 Hm)) as (m' & Hrun & Hk' & Ht').
    exists m'. simpl. rewrite Htm. simpl. rewrite Hq. simpl. rewrite Hm1. simpl.
    rewrite Hrun. repeat split; [exact Hk'|lia].
Qed.

Lemma choice_in (l : list page) (i : nat) :
  l <> [] -> exists q, choice l i = Ok q /\ In q l.
Proof.
  intros Hl. destruct l as [|x l]; [congruence|]. eexists. split; [reflexivity|].
  apply nth_In, Nat.mod_upper_bound. discriminate.
Qed.

Lemma init_counts_keys (c : corpus) : keys (map (fun '(p, _) => (p, 0%nat)) c) = keys c.
Proof. unfold keys. rewrite map_map. apply map_ext. now intros [p l]. Qed.

Lemma init_counts_total (c : corpus) : total (map (fun '(p, _) => (p, 0%nat)) c) = 0%nat.
Proof. induction c as [|[p l] c IH]; [reflexivity|]. unfold total in *. simpl. lia. Qed.

(** The counters of a run: one per page, [n] visits in all. *)
Lemma sample_counts_spec (c : corpus) (d : Q) (n : Z) (rnd : draws) :
  c <> [] -> 0 <= d -> d < 1 ->
  exists m, sample_counts c d n rnd = Ok m /\ keys m = keys c /\
    total m = S (Z.to_nat (n - 1)).
Proof.
  intros Hc Hd0 Hd1. unfold sample_counts.
  assert (Hk : keys c <> []) by (destruct c; [congruence|discriminate]).
  destruct (choice_in (keys c) (rnd 0%nat) Hk) as (q & Hq & Hqin). rewrite Hq. simpl.
  rewrite <- (init_counts_keys c) in Hqin.
  destruct (incr_spec _ q Hqin) as (m1 & Hm1 & Hk1 & Ht1). rewrite Hm1. simpl.
  rewrite init_counts_keys in Hk1, Hqin. rewrite init_counts_total in Ht1.
  destruct (sample_loop_spec c d rnd (Z.to_nat (n - 1)) Hd0 Hd1 1 q m1 Hqin Hk1)
    as (m' & Hrun & Hk' & Ht').
  exists m'. split; [exact Hrun|]. split; [exact Hk'|lia].
Qed.

Lemma sumQ_divide (m : dict nat) (n : Z) :
  sumQ (map snd (map (fun '(p, k) => (p, inject_Z (Z.of_nat k) / inject_Z n)) m))
  == inject_Z (Z.of_nat (total m)) / inject_Z n.
Proof.
  induction m as [|[p k] m IH]; [unfold Qdiv; simpl; ring|].
  cbn [map snd]. rewrite sumQ_cons, IH. unfold total. cbn [map fold_right snd].
  fold (total m). rewrite Nat2Z.inj_add, inject_Z_plus. unfold Qdiv. ring.
Qed.

Lemma inject_Z_nonneg (z : Z) : (0 <= z)%Z -> 0 <= inject_Z z.
Proof. intros H. unfold Qle. simpl. lia. Qed.

Lemma sample_divide (m : dict nat) (n : Z) :
  m <> [] -> (1 <= n)%Z -> total m = Z.to_nat n ->
  divide m n = Ok (map (fun '(p, k) => (p, inject_Z (Z.of_nat k) / inject_Z n)) m) /\
  Forall (fun v => 0 <= v)
    (map snd (map (fun '(p, k) => (p, inject_Z (Z.of_nat k) / inject_Z n)) m)) /\
  sumQ (map snd (map (fun '(p, k) => (p, inject_Z (Z.of_nat k) / inject_Z n)) m)) == 1.
Proof.
  intros Hm Hn Ht. split; [|split].
  - unfold divide. destruct m; [congruence|].
    destruct (Z.eqb_spec n 0); [lia|reflexivity].
  - rewrite map_map. apply Forall_forall. intros v Hv. apply in_map_iff in Hv.
    destruct Hv as [[p k] [<- _]]. unfold Qdiv. simpl.
    apply Qmult_le_0_compat; [apply inject_Z_nonneg; lia|].
    apply Qinv_le_0_compat, inject_Z_nonneg. lia.
  - rewrite sumQ_divide, Ht, Z2Nat.id by lia. field.
    unfold Qeq. simpl. lia.
Qed.

(** C6: for a non-empty corpus, a damping factor in (0, 1) and [n >= 1],
    whatever the random draws, [sample_pagerank] returns one value per page,
    each the page's visit count divided by [n], non-negative, and the values
    sum to 1; the counts total [n]. *)
Theorem sample_pagerank_distribution (c : corpus) (d : Q) (n : Z) (rnd : draws) :
  c <> [] -> 0 < d < 1 -> (1 <= n)%Z ->
  exists counts r,
    sample_counts c d n rnd = Ok counts /\ keys counts = keys c /\
    total counts = Z.to_nat n /\
    sample_pagerank c d n rnd = Ok r /\
    r = map (fun '(p, k) => (p, inject_Z (Z.of_nat k) / inject_Z n)) counts /\
    keys r = keys c /\ Forall (fun v => 0 <= v) (map snd r) /\ sumQ (map snd r) == 1.
Proof.
  intros Hc [Hd0 Hd1] Hn.
  destruct (sample_counts_spec c d n rnd Hc (Qlt_le_weak _ _ Hd0) Hd1) as (m & Hrun & Hk & Ht).
  assert (Ht' : total m = Z.to_nat n) by lia.
  assert (Hm : m <> []) by (intros ->; destruct c; [congruence|discriminate]).
  destruct (sample_divide m n Hm Hn Ht') as (Hdiv & Hpos & Hsum).
  exists m, (map (fun '(p, k) => (p, inject_Z (Z.of_nat k) / inject_Z n)) m).
  repeat split; try assumption.
  - unfold sample_pagerank. rewrite Hrun. exact Hdiv.
  - rewrite <- Hk. unfold keys. rewrite map_map. apply map_ext. now intros [p k].
Qed.

Lemma sample_pagerank_distribution_witness :
  corpus3 <> [] /\ 0 < 85 # 100 < 1 /\ (1 <= 7)%Z /\
  exists counts r,
    sample_counts corpus3 (85 # 100) 7 (fun i => i) = Ok counts /\ keys counts = keys corpus3 /\
    total counts = Z.to_nat 7 /\
    sample_pagerank corpus3 (85 # 100) 7 (fun i => i) = Ok r /\
    r = map (fun '(p, k) => (p, inject_Z (Z.of_nat k) / inject_Z 7)) counts /\
    keys r = keys corpus3 /\ Forall (fun v => 0 <= v) (map snd r) /\ sumQ (map snd r) == 1.
Proof.
  assert (Hc : corpus3 <> []) by discriminate.
  assert (Hd : 0 < 85 # 100 < 1) by (split; reflexivity).
  assert (Hn : (1 <= 7)%Z) by lia.
  split; [exact Hc|]. split; [exact Hd|]. split; [exact Hn|].
  exact (sample_pagerank_distribution corpus3 (85 # 100) 7 (fun i => i) Hc Hd Hn).
Defined.

(** ** [iterate_pagerank]: one pass *)

Lemma lookup_update_same {A : Type} (m : dict A) (k : page) (v : A) :
  lookup k (update k v m) = Some v.
Proof.
  induction m as [|[k' v'] m IH]; simpl; [now rewrite String.eqb_refl|].
  destruct (String.eqb_spec k k') as [->|Hne]; simpl.
  - now rewrite String.eqb_refl.
  - apply String.eqb_neq in Hne. now rewrite Hne.
Qed.

Lemma lookup_update_other {A : Type} (m : dict A) (k q : page) (v : A) :
  q <> k -> lookup q (update k v m) = lookup q m.
Proof.
  intros Hqk. induction m as [|[k' v'] m IH]; simpl.
  - apply String.eqb_neq in Hqk. now rewrite Hqk.
  - destruct (String.eqb_spec k k') as [->|Hne]; simpl.
    + apply String.eqb_neq in Hqk. now rewrite Hqk.
    + now rewrite IH.
Qed.

Lemma visit_eq (c : corpus) (d : Q) (r : dict Q) (cnt : nat) (p : page) :
  visit c d (r, cnt) p =
  (update p (Qred (new_rank c d r p)) r,
   if within (get r p) (new_rank c d r p) then S cnt else cnt).
Proof. reflexivity. Qed.

(** Pages not visited keep their stored rank. *)
Lemma visits_other (c : corpus) (d : Q) (ks : list page) (q : page) :
  ~ In q ks -> forall st, lookup q (fst (fold_left (visit c d) ks st)) = lookup q (fst st).
Proof.
  induction ks as [|k ks IH]; intros Hq [r cnt]; [reflexivity|]. simpl.
  rewrite IH by (intros H; apply Hq; now right). rewrite ?visit_eq. simpl.
  apply lookup_update_other. intros ->. apply Hq. now left.
Qed.

(** The value a pass writes for [p]: computed from the ranks as they are
    when [p] is reached, i.e. after the pages before it. *)
Lemma pass_value (c : corpus) (d : Q) (r : dict Q) (cnt : nat) (pre post : list page)
  (p : page) :
  keys c = pre ++ p :: post -> ~ In p post ->
  lookup p (fst (pass c d r cnt)) =
  Some (Qred (new_rank c d (fst (fold_left (visit c d) pre (r, cnt))) p)).
Proof.
  intros Hk Hp. unfold pass. rewrite Hk, fold_left_app. simpl.
  rewrite visits_other by exact Hp.
  destruct (fold_left (visit c d) pre (r, cnt)) as [r1 cnt1].
  rewrite visit_eq. simpl. apply lookup_update_same.
Qed.

(** The pages before [p] already hold the values they have at the end of
    the pass. *)
Lemma pass_prefix (c : corpus) (d : Q) (r : dict Q) (cnt : nat) (pre post : list page)
  (p q : page) :
  NoDup (keys c) -> keys c = pre ++ p :: post -> In q pre ->
  lookup q (fst (fold_left (visit c d) pre (r, cnt))) = lookup q (fst (pass c d r cnt)).
Proof.
  intros Hnd Hk Hq. unfold pass. rewrite Hk, fold_left_app.
  rewrite (visits_other c d (p :: post) q); [reflexivity|].
  rewrite Hk in Hnd. intros Hin.
  revert Hnd Hq Hin. clear. intros Hnd Hq Hin.
  induction pre as [|x pre IH]; [contradiction|].
  inversion Hnd as [|y l Hx Hnd']. subst.
  destruct Hq as [->|Hq].
  - apply Hx, in_or_app. now right.
  - now apply IH.
Qed.

(** The code's summation (lines 127-137) is the spec's sum over the pages
    linking to [p], a dangling page linking to every page. *)
Lemma new_rank_formula (c : corpus) (d : Q) (r : dict Q) (p : page) :
  In p (keys c) -> new_rank c d r p == spec_rank_update c d r p.
Proof.
  intros Hp. unfold new_rank, spec_rank_update.
  assert (Hsum : forall (l : corpus) (acc : Q),
    fold_left
      (fun summation '(q, links0) =>
         let links := match links0 with [] => keys c | _ => links0 end in
         if mem p links then summation + get r q / len links else summation)
      l acc
    == acc + sumQ (map (fun '(q, L) =>
                          match L with
                          | [] => get r q / len c
                          | _ => if mem p L then get r q / len L else 0
                          end) l)).
  { induction l as [|[q L] l IH]; intros acc; [simpl; ring|].
    cbn [fold_left map]. rewrite IH, sumQ_cons.
    destruct L as [|x L'].
    - assert (Hm : mem p (keys c) = true) by now apply mem_In.
      rewrite Hm, len_keys. ring.
    - destruct (mem p (x :: L')); ring. }
  rewrite Hsum. ring.
Qed.

Lemma within_iff (old newRank : Q) :
  within old newRank = true <-> old - (1 # 1000) <= newRank <= old + (1 # 1000).
Proof.
  unfold within. rewrite andb_true_iff, !Qle_bool_iff. tauto.
Qed.

Lemma visit_count_le (c : corpus) (d : Q) (st : dict Q * nat) (p : page) :
  (snd (visit c d st p) <= S (snd st))%nat.
Proof.
  destruct st as [r cnt]. rewrite visit_eq. simpl. destruct (within _ _); lia.
Qed.

Lemma visits_count_le (c : corpus) (d : Q) (ks : list page) :
  forall st, (snd (fold_left (visit c d) ks st) <= snd st + List.length ks)%nat.
Proof.
  induction ks as [|k ks IH]; intros st; simpl; [lia|].
  specialize (IH (visit c d st k)). pose proof (visit_count_le c d st k). lia.
Qed.

(** The counter reaches [snd st + length ks] only if every page passes its
    test. *)
Lemma visits_count_all (c : corpus) (d : Q) (pre post : list page) (p : page) :
  forall st,
  snd (fold_left (visit c d) (pre ++ p :: post) st) =
    (snd st + List.length (pre ++ p :: post))%nat ->
  within (get (fst (fold_left (visit c d) pre st)) p)
         (new_rank c d (fst (fold_left (visit c d) pre st)) p) = true.
Proof.
  induction pre as [|x pre IH]; intros [r cnt] Heq.
  - cbn [app fold_left fst] in *. rewrite visit_eq in Heq.
    destruct (within (get r p) (new_rank c d r p)) eqn:Hw; [reflexivity|].
    pose proof (visits_count_le c d post (update p (Qred (new_rank c d r p)) r, cnt)).
    simpl in *. lia.
  - cbn [app fold_left] in *. apply IH.
    pose proof (visits_count_le c d (pre ++ p :: post) (visit c d (r, cnt) x)).
    pose proof (visit_count_le c d (r, cnt) x). simpl in *. lia.
Qed.

Lemma visits_count_fail (c : corpus) (d : Q) (pre post : list page) (p : page) :
  forall st,
  within (get (fst (fold_left (visit c d) pre st)) p)
         (new_rank c d (fst (fold_left (visit c d) pre st)) p) = false ->
  (snd (fold_left (visit c d) (pre ++ p :: post) st) <
    snd st + List.length (pre ++ p :: post))%nat.
Proof.
  induction pre as [|x pre IH]; intros [r cnt] Hw.
  - cbn [app fold_left fst] in *. rewrite visit_eq, Hw.
    pose proof (visits_count_le c d post (update p (Qred (new_rank c d r p)) r, cnt)).
    simpl in *. lia.
  - cbn [app fold_left] in *. specialize (IH (visit c d (r, cnt) x) Hw).
    pose proof (visit_count_le c d (r, cnt) x). simpl in *. lia.
Qed.

Lemma lookup_init (c l : corpus) (v : Q) (p : page) :
  In p (keys l) -> lookup p (map (fun '(q, _) => (q, v)) l) = Some v.
Proof.
  induction l as [|[q L] l IH]; simpl; [contradiction|].
  intros Hp. destruct (String.eqb_spec p q) as [->|Hne]; [reflexivity|].
  apply IH. destruct Hp as [Heq|Hp]; [congruence|exact Hp].
Qed.

Lemma NoDup_middle_notin (pre post : list page) (p : page) :
  NoDup (pre ++ p :: post) -> ~ In p post.
Proof.
  intros Hnd Hin. apply NoDup_remove_2 in Hnd. apply Hnd, in_or_app. now right.
Qed.

(** C2 (as the code has it): a pass updates the ranks in place, in key
    order.  The rank written for [p] is computed from the ranks as they
    stand when [p] is reached: the pages before [p] already hold their new
    values of this pass, the others their values at the start of it. *)
Theorem pass_in_place (c : corpus) (d : Q) (r : dict Q) (cnt : nat)
  (pre post : list page) (p : page) :
  NoDup (keys c) -> keys c = pre ++ p :: post ->
  lookup p (fst (pass c d r cnt)) =
    Some (Qred (new_rank c d (fst (fold_left (visit c d) pre (r, cnt))) p)) /\
  (forall q, In q pre ->
     lookup q (fst (fold_left (visit c d) pre (r, cnt))) = lookup q (fst (pass c d r cnt))) /\
  (forall q, ~ In q pre -> lookup q (fst (fold_left (visit c d) pre (r, cnt))) = lookup q r).
Proof.
  intros Hnd Hk. split; [|split].
  - apply pass_value with (post := post); [exact Hk|].
    apply NoDup_middle_notin with (pre := pre). now rewrite <- Hk.
  - intros q Hq. now apply pass_prefix with (p := p) (post := post).
  - intros q Hq. now rewrite visits_other.
Qed.

Lemma pass_in_place_witness :
  NoDup (keys corpus3) /\ keys corpus3 = ["A"%string] ++ "B"%string :: ["C"%string] /\
  lookup "B"%string (fst (pass corpus3 (1 # 2) (init_ranks corpus3) 0)) =
    Some (Qred (new_rank corpus3 (1 # 2)
                  (fst (fold_left (visit corpus3 (1 # 2)) ["A"%string] (init_ranks corpus3, 0%nat))) "B"%string)) /\
  (forall q, In q ["A"%string] ->
     lookup q (fst (fold_left (visit corpus3 (1 # 2)) ["A"%string] (init_ranks corpus3, 0%nat)))
     = lookup q (fst (pass corpus3 (1 # 2) (init_ranks corpus3) 0))) /\
  (forall q, ~ In q ["A"%string] ->
     lookup q (fst (fold_left (visit corpus3 (1 # 2)) ["A"%string] (init_ranks corpus3, 0%nat)))
     = lookup q (init_ranks corpus3)).
Proof.
  assert (Hnd : NoDup (keys corpus3))
    by (repeat constructor; simpl; intuition discriminate).
  assert (Hk : keys corpus3 = ["A"%string] ++ "B"%string :: ["C"%string]) by reflexivity.
  split; [exact Hnd|]. split; [exact Hk|].
  exact (pass_in_place corpus3 (1 # 2) (init_ranks corpus3) 0 ["A"%string] ["C"%string] "B"%string Hnd Hk).
Defined.

(** C2 fails: [corpus3'] is [corpus3] with its keys in the reverse order;
    with damping factor 1/2 both runs converge (in 4 and 5 passes) to
    different rank vectors. *)
Theorem iterate_pagerank_order_dependent :
  Permutation corpus3 corpus3' /\
  exists r r', iterate_pagerank corpus3 (1 # 2) 10 = Some r /\
    iterate_pagerank corpus3' (1 # 2) 10 = Some r' /\
    ~ get r "A"%string == get r' "A"%string.
Proof.
  split; [apply (Permutation_rev corpus3)|].
  eexists. eexists. split; [vm_compute; reflexivity|]. split; [vm_compute; reflexivity|].
  vm_compute. discriminate.
Qed.

(** C4 fails: in the first pass over [corpus3] (damping 1/2), the rank
    written for ["B"%string] is not the spec's update of the initial vector, since
    it reads the new rank of ["A"%string] written earlier in the pass. *)
Theorem iterate_pass_reads_updated :
  exists v, lookup "B"%string (fst (pass corpus3 (1 # 2) (init_ranks corpus3) 0)) = Some v /\
    v == 3 # 8 /\ spec_rank_update corpus3 (1 # 2) (init_ranks corpus3) "B"%string == 1 # 3 /\
    ~ v == spec_rank_update corpus3 (1 # 2) (init_ranks corpus3) "B"%string.
Proof.
  eexists. split; [vm_compute; reflexivity|]. split; [reflexivity|]. split; [reflexivity|].
  vm_compute. discriminate.
Qed.

(** C4 (as the code has it): ranks start at [1/N]; in a pass, the rank
    written for [p] is [(1 - d)/N + d * sum of rank(q)/outDegree(q)] over
    the pages [q] linking to [p], a dangling [q] counting as linking to
    every page, where [rank] is the vector as it stands when [p] is
    reached (new values for the pages before [p], previous ones for the
    others). *)
Theorem iterate_update_formula (c : corpus) (d : Q) :
  (forall p, In p (keys c) -> lookup p (init_ranks c) = Some (1 / len c)) /\
  (forall r cnt pre p post, NoDup (keys c) -> keys c = pre ++ p :: post ->
     exists v, lookup p (fst (pass c d r cnt)) = Some v /\
       v == spec_rank_update c d (fst (fold_left (visit c d) pre (r, cnt))) p /\
       (forall q, In q pre ->
          lookup q (fst (fold_left (visit c d) pre (r, cnt))) = lookup q (fst (pass c d r cnt))) /\
       (forall q, ~ In q pre -> lookup q (fst (fold_left (visit c d) pre (r, cnt))) = lookup q r)).
Proof.
  split.
  - intros p Hp. unfold init_ranks. now apply lookup_init.
  - intros r cnt pre p post Hnd Hk. eexists. split.
    + apply pass_value with (post := post); [exact Hk|].
      apply NoDup_middle_notin with (pre := pre). now rewrite <- Hk.
    + split; [|split].
      * rewrite Qred_correct. apply new_rank_formula. rewrite Hk.
        apply in_or_app. right. now left.
      * intros q Hq. now apply pass_prefix with (p := p) (post := post).
      * intros q Hq. now rewrite visits_other.
Qed.

(** C5: [iterate_pagerank] stops only after a pass in which every page's
    new rank is within 0.001 of its rank when it was compared (the counter
    starting from 0 in that pass); a pass in which some page fails the test
    does not stop: the counter is reset to 0 and a full new pass runs on
    the updated ranks. *)
Theorem iterate_loop_convergence (c : corpus) (d : Q) :
  (forall fuel r r', iterate_loop c d fuel r 0 = Some r' ->
     exists r0, r' = fst (pass c d r0 0) /\
       forall pre p post, keys c = pre ++ p :: post ->
         get (fst (fold_left (visit c d) pre (r0, 0%nat))) p - (1 # 1000)
           <= new_rank c d (fst (fold_left (visit c d) pre (r0, 0%nat))) p
           <= get (fst (fold_left (visit c d) pre (r0, 0%nat))) p + (1 # 1000)) /\
  (forall fuel r pre p post, keys c = pre ++ p :: post ->
     ~ (get (fst (fold_left (visit c d) pre (r, 0%nat))) p - (1 # 1000)
          <= new_rank c d (fst (fold_left (visit c d) pre (r, 0%nat))) p
          <= get (fst (fold_left (visit c d) pre (r, 0%nat))) p + (1 # 1000)) ->
     iterate_loop c d (S fuel) r 0 = iterate_loop c d fuel (fst (pass c d r 0)) 0).
Proof.
  split.
  - induction fuel as [|fuel IH]; intros r r' Hrun; [discriminate|].
    simpl in Hrun. destruct (pass c d r 0) as [r1 cnt1] eqn:Hpass.
    destruct (Nat.eqb_spec cnt1 (List.length c)) as [Heq|Hne].
    + injection Hrun as <-. exists r. rewrite Hpass. split; [reflexivity|].
      intros pre p post Hk. apply within_iff.
      apply (visits_count_all c d pre post p (r, 0%nat)).
      rewrite <- Hk. unfold pass in Hpass. rewrite Hpass. simpl.
      unfold keys. rewrite length_map. exact Heq.
    + exact (IH r1 r' Hrun).
  - intros fuel r pre p post Hk Hfail. simpl.
    assert (Hw : within (get (fst (fold_left (visit c d) pre (r, 0%nat))) p)
                   (new_rank c d (fst (fold_left (visit c d) pre (r, 0%nat))) p) = false).
    { destruct (within _ _) eqn:Hw; [|reflexivity]. apply within_iff in Hw. contradiction. }
    pose proof (visits_count_fail c d pre post p (r, 0%nat) Hw) as Hlt.
    rewrite <- Hk in Hlt. unfold pass. simpl in Hlt.
    destruct (fold_left (visit c d) (keys c) (r, 0%nat)) as [r1 cnt1]. simpl in Hlt.
    unfold keys in Hlt. rewrite length_map in Hlt.
    destruct (Nat.eqb_spec cnt1 (List.length c)); [lia|reflexivity].
Qed.

(** C8 fails: on the empty corpus [iterate_pagerank] raises nothing; it
    returns the empty distribution. *)
Theorem iterate_pagerank_empty_returns :
  iterate_pagerank [] (85 # 100) 1 = Some [].
Proof. reflexivity. Qed.

(** C8 (as the code has it): on the empty corpus [sample_pagerank] fails
    ([random.choice] on the empty key list raises [IndexError]) before
    producing a distribution, and [iterate_pagerank] returns the empty
    distribution after one pass. *)
Theorem empty_corpus (d : Q) (n : Z) (rnd : draws) (fuel : nat) :
  sample_pagerank [] d n rnd = Err IndexError /\ iterate_pagerank [] d (S fuel) = Some [].
Proof. split; reflexivity. Qed.

Lemma single_new_rank (a : page) (d : Q) :
  new_rank [(a, [])] d (init_ranks [(a, [])]) a == 1.
Proof.
  rewrite new_rank_formula by (left; reflexivity).
  unfold spec_rank_update, init_ranks, get. cbn. rewrite String.eqb_refl.
  unfold len. simpl. field.
Qed.

(** C9: on the corpus made of one dangling page, [sample_pagerank] (any
    [n >= 1], any draws) and [iterate_pagerank] both give that page rank 1. *)
Theorem single_dangling_page (a : page) (d : Q) (n : Z) (rnd : draws) (fuel : nat) :
  0 < d < 1 -> (1 <= n)%Z ->
  (exists v, sample_pagerank [(a, [])] d n rnd = Ok [(a, v)] /\ v == 1) /\
  (exists v, iterate_pagerank [(a, [])] d (S fuel) = Some [(a, v)] /\ v == 1).
Proof.
  intros [Hd0 Hd1] Hn. split.
  - assert (Hc : [(a, @nil page)] <> []) by discriminate.
    destruct (sample_counts_spec [(a, [])] d n rnd Hc (Qlt_le_weak _ _ Hd0) Hd1)
      as (m & Hrun & Hk & Ht).
    destruct m as [|[a' k] [|x m]]; try discriminate.
    injection Hk as ->.
    assert (Ht' : total [(a, k)] = Z.to_nat n) by lia.
    destruct (sample_divide [(a, k)] n ltac:(discriminate) Hn Ht') as (Hdiv & _ & Hsum).
    eexists. split.
    + unfold sample_pagerank. rewrite Hrun. exact Hdiv.
    + simpl in Hsum. rewrite <- Hsum. ring.
  - exists (Qred (new_rank [(a, [])] d (init_ranks [(a, [])]) a)).
    split; [|rewrite Qred_correct; apply single_new_rank].
    assert (Hw : within (get (init_ranks [(a, [])]) a)
                        (new_rank [(a, [])] d (init_ranks [(a, [])]) a) = true).
    { apply within_iff. rewrite single_new_rank.
      unfold get, init_ranks. cbn. rewrite String.eqb_refl. split; apply Qle_bool_iff; reflexivity. }
    unfold iterate_pagerank. cbn [iterate_loop]. unfold pass. cbn [keys map fst fold_left].
    rewrite visit_eq, Hw. cbn [Nat.eqb List.length init_ranks map update]. rewrite String.eqb_refl. reflexivity.
Qed.

Lemma single_dangling_page_witness :
  0 < 85 # 100 < 1 /\ (1 <= 5)%Z /\
  (exists v, sample_pagerank [("A"%string, [])] (85 # 100) 5 (fun i => i) = Ok [("A"%string, v)] /\ v == 1) /\
  (exists v, iterate_pagerank [("A"%string, [])] (85 # 100) 1 = Some [("A"%string, v)] /\ v == 1).
Proof.
  assert (Hd : 0 < 85 # 100 < 1) by (split; reflexivity).
  assert (Hn : (1 <= 5)%Z) by lia.
  split; [exact Hd|]. split; [exact Hn|].
  exact (single_dangling_page "A"%string (85 # 100) 5 (fun i => i) 0 Hd Hn).
Defined.

Lemma corpus3_well_formed : well_formed corpus3.
Proof.
  split; [repeat constructor; simpl; intuition discriminate|].
  intros p links Hin. simpl in Hin.
  repeat destruct Hin as [Hin|Hin]; try contradiction; injection Hin as <- <-;
    (split; [repeat constructor; simpl; intuition discriminate|]);
    intros q Hq; simpl in *; intuition.
Qed.

Lemma transition_model_linked_witness :
  well_formed corpus3 /\ lookup "B"%string corpus3 = Some ["A"; "C"]%string /\
  ["A"; "C"]%string <> [] /\ 0 < 85 # 100 < 1 /\
  exists tm, transition_model corpus3 "B"%string (85 # 100) = Ok tm /\ keys tm = keys corpus3 /\
    (forall q, In q ["A"; "C"]%string ->
       lookup q tm = Some ((85 # 100) / len ["A"; "C"]%string + (1 - (85 # 100)) / len corpus3)) /\
    (forall q, In q (keys corpus3) -> ~ In q ["A"; "C"]%string ->
       lookup q tm = Some ((1 - (85 # 100)) / len corpus3)) /\
    sumQ (map snd tm) == 1.
Proof.
  assert (Hl : lookup "B"%string corpus3 = Some ["A"; "C"]%string) by reflexivity.
  assert (Hne : ["A"; "C"]%string <> []) by discriminate.
  assert (Hd : 0 < 85 # 100 < 1) by (split; reflexivity).
  split; [exact corpus3_well_formed|]. split; [exact Hl|]. split; [exact Hne|].
  split; [exact Hd|].
  exact (transition_model_linked corpus3 "B"%string ["A"; "C"]%string (85 # 100)
           corpus3_well_formed Hl Hne Hd).
Defined.

(** ** [crawl] *)

Lemma keys_update_In {A : Type} (m : dict A) (k x : page) (v : A) :
  In x (keys (update k v m)) -> x = k \/ In x (keys m).
Proof.
  induction m as [|[k' v'] m IH]; simpl.
  - intros [->|[]]. now left.
  - destruct (String.eqb_spec k k') as [->|_]; simpl; [tauto|].
    intros [->|H]; [tauto|]. destruct (IH H); tauto.
Qed.

Lemma NoDup_keys_update {A : Type} (m : dict A) (k : page) (v : A) :
  NoDup (keys m) -> NoDup (keys (update k v m)).
Proof.
  induction m as [|[k' v'] m IH]; simpl; intros Hnd.
  - constructor; [intros []|constructor].
  - inversion Hnd as [|y l Hy Hnd']. subst.
    destruct (String.eqb_spec k k') as [->|Hne]; simpl; [exact Hnd|].
    constructor; [|now apply IH].
    intros Hin. destruct (keys_update_In m k k' v Hin) as [->|H]; [congruence|contradiction].
Qed.

Lemma In_update {A : Type} (m : dict A) (k f : page) (v L : A) :
  In (f, L) (update k v m) -> (f = k /\ L = v) \/ In (f, L) m.
Proof.
  induction m as [|[k' v'] m IH]; simpl.
  - intros [H|[]]. injection H as -> ->. now left.
  - destruct (String.eqb_spec k k') as [->|_]; simpl.
    + intros [H|H]; [injection H as -> ->; now left|tauto].
    + intros [H|H]; [tauto|]. destruct (IH H); tauto.
Qed.

Lemma keys_update_new {A : Type} (m : dict A) (k : page) (v : A) :
  ~ In k (keys m) -> keys (update k v m) = keys m ++ [k].
Proof.
  induction m as [|[k' v'] m IH]; simpl; intros Hk; [reflexivity|].
  destruct (String.eqb_spec k k') as [->|_]; [exfalso; apply Hk; now left|].
  simpl. f_equal. apply IH. intros H. apply Hk. now right.
Qed.

Lemma lookup_map_values {A B : Type} (g : A -> B) (m : dict A) (k : page) :
  lookup k (map (fun '(a, b) => (a, g b)) m) = option_map g (lookup k m).
Proof.
  induction m as [|[k' v'] m IH]; simpl; [reflexivity|].
  destruct (String.eqb k k'); [reflexivity|exact IH].
Qed.

Lemma keys_map_values {A B : Type} (g : page -> A -> B) (m : dict A) :
  keys (map (fun '(a, b) => (a, g a b)) m) = keys m.
Proof.
  induction m as [|[k' v'] m IH]; simpl; [reflexivity|]. now rewrite IH.
Qed.

(** The first loop of [crawl]: distinct keys; every value without
    duplicates and without its own key. *)
Lemma crawl_pages_inv (entries : list (string * list string)) :
  forall pages : corpus,
  NoDup (keys pages) ->
  (forall f L, In (f, L) pages -> NoDup L /\ ~ In f L) ->
  NoDup (keys (fold_left crawl_step entries pages)) /\
  (forall f L, In (f, L) (fold_left crawl_step entries pages) -> NoDup L /\ ~ In f L).
Proof.
  induction entries as [|[fn links] entries IH]; intros pages Hnd Hv; simpl; [tauto|].
  apply IH.
  - destruct (ends_with_html fn); [now apply NoDup_keys_update|exact Hnd].
  - destruct (ends_with_html fn); [|exact Hv].
    intros f L Hin. destruct (In_update _ _ _ _ _ Hin) as [[-> ->]|H]; [|now apply Hv].
    split.
    + apply NoDup_filter, NoDup_nodup.
    + rewrite filter_In. intros [_ Hf]. rewrite String.eqb_refl in Hf. discriminate.
Qed.

(** [crawl] builds a well-formed corpus in which no page links to itself. *)
Lemma crawl_wf (entries : list (string * list string)) :
  well_formed (crawl entries) /\
  forall f L, In (f, L) (crawl entries) -> ~ In f L.
Proof.
  unfold crawl.
  destruct (crawl_pages_inv entries [] (NoDup_nil _) (fun f L H => match H with end))
    as [Hnd Hv].
  fold (crawl_pages entries) in Hnd, Hv.
  split; [split|].
  - rewrite keys_map_values. exact Hnd.
  - intros p links Hin. apply in_map_iff in Hin.
    destruct Hin as [[f L] [Heq Hin]]. injection Heq as <- <-.
    split.
    + apply NoDup_filter, (Hv f L Hin).
    + intros q Hq. apply filter_In in Hq. rewrite keys_map_values.
      now apply mem_In.
  - intros p links Hin. apply in_map_iff in Hin.
    destruct Hin as [[f L] [Heq Hin]]. injection Heq as <- <-.
    intros Hq. apply filter_In in Hq. apply (Hv f L Hin), Hq.
Qed.

(** X1: [crawl] builds a corpus with distinct pages, link sets without
    duplicates made only of pages of the corpus, and no page linking to
    itself. *)
Theorem crawl_well_formed (entries : list (string * list string)) :
  well_formed (crawl entries) /\
  forall f L, In (f, L) (crawl entries) -> ~ In f L.
Proof. exact (crawl_wf entries). Qed.

Lemma crawl_pages_keys (es : list (string * list string)) :
  forall acc : corpus,
  NoDup (map fst es) -> (forall n, In n (map fst es) -> ~ In n (keys acc)) ->
  keys (fold_left crawl_step es acc) = keys acc ++ filter ends_with_html (map fst es).
Proof.
  induction es as [|[fn links] es IH]; intros acc Hnd Hdis; simpl.
  - now rewrite app_nil_r.
  - inversion Hnd as [|y l Hy Hnd']. subst.
    destruct (ends_with_html fn) eqn:Hh.
    + rewrite IH; [rewrite keys_update_new; [now rewrite <- app_assoc|]| |].
      * apply Hdis. now left.
      * exact Hnd'.
      * intros n Hn Hin. destruct (keys_update_In _ _ _ _ Hin) as [->|H]; [contradiction|].
        apply (Hdis n); [now right|exact H].
    + apply IH; [exact Hnd'|]. intros n Hn. apply Hdis. now right.
Qed.

(** X2: when the directory lists distinct names, the pages of [crawl]
    are exactly the names ending in [.html], in listing order. *)
Theorem crawl_keys (entries : list (string * list string)) :
  NoDup (map fst entries) ->
  keys (crawl entries) = filter ends_with_html (map fst entries).
Proof.
  intros Hnd. unfold crawl. rewrite keys_map_values. unfold crawl_pages.
  rewrite crawl_pages_keys; [reflexivity|exact Hnd|]. intros n _ [].
Qed.

Lemma crawl_keys_witness :
  NoDup (map fst entries_example) /\
  keys (crawl entries_example) = filter ends_with_html (map fst entries_example).
Proof.
  assert (H : NoDup (map fst entries_example))
    by (repeat constructor; simpl; intuition discriminate).
  split; [exact H|]. exact (crawl_keys entries_example H).
Defined.

Lemma crawl_pages_other (es : list (string * list string)) (f : page) :
  ~ In f (map fst es) ->
  forall acc, lookup f (fold_left crawl_step es acc) = lookup f acc.
Proof.
  induction es as [|[fn links] es IH]; intros Hf acc; simpl; [reflexivity|].
  rewrite IH by (intros H; apply Hf; now right).
  destruct (ends_with_html fn); [|reflexivity].
  apply lookup_update_other. intros ->. apply Hf. now left.
Qed.

Lemma crawl_pages_lookup (es : list (string * list string)) (f : page) (raw : list string) :
  NoDup (map fst es) -> In (f, raw) es -> ends_with_html f = true ->
  forall acc, lookup f (fold_left crawl_step es acc) =
              Some (filter (fun l => negb (String.eqb l f)) (nodup string_dec raw)).
Proof.
  induction es as [|[fn links] es IH]; intros Hnd Hin Hh acc; [contradiction|].
  inversion Hnd as [|y l Hy Hnd']. subst. simpl.
  destruct Hin as [Heq|Hin].
  - injection Heq as -> ->. rewrite Hh. rewrite crawl_pages_other by exact Hy.
    apply lookup_update_same.
  - now apply IH.
Qed.

(** X3: for a listed [.html] name [f] (names distinct), the links [crawl]
    keeps for [f] are exactly the links found in [f] that are other pages
    of the corpus. *)
Theorem crawl_links (entries : list (string * list string)) (f : page) (raw : list string) :
  NoDup (map fst entries) -> In (f, raw) entries -> ends_with_html f = true ->
  exists L, lookup f (crawl entries) = Some L /\
    forall q, In q L <-> In q raw /\ q <> f /\ In q (keys (crawl entries)).
Proof.
  intros Hnd Hin Hh. unfold crawl. rewrite lookup_map_values.
  unfold crawl_pages. rewrite (crawl_pages_lookup entries f raw Hnd Hin Hh). simpl.
  eexists. split; [reflexivity|]. intros q.
  rewrite keys_map_values, !filter_In, nodup_In, mem_In, negb_true_iff, String.eqb_neq.
  tauto.
Qed.

Lemma crawl_links_witness :
  NoDup (map fst entries_example) /\
  In ("a.html", ["b.html"; "a.html"; "x.html"; "b.html"])%string entries_example /\
  ends_with_html "a.html"%string = true /\
  exists L, lookup "a.html"%string (crawl entries_example) = Some L /\
    forall q, In q L <-> In q ["b.html"; "a.html"; "x.html"; "b.html"]%string /\
                        q <> "a.html"%string /\ In q (keys (crawl entries_example)).
Proof.
  assert (H1 : NoDup (map fst entries_example))
    by (repeat constructor; simpl; intuition discriminate).
  assert (H2 : In ("a.html", ["b.html"; "a.html"; "x.html"; "b.html"])%string entries_example)
    by (left; reflexivity).
  assert (H3 : ends_with_html "a.html"%string = true) by reflexivity.
  split; [exact H1|]. split; [exact H2|]. split; [exact H3|].
  exact (crawl_links entries_example _ _ H1 H2 H3).
Defined.

(** ** [iterate_pagerank]: keys, signs, damping factor 0 *)

Lemma init_ranks_keys (c : corpus) : keys (init_ranks c) = keys c.
Proof. unfold init_ranks, keys. rewrite map_map. apply map_ext. now intros [p l]. Qed.

Lemma visits_keys (c : corpus) (d : Q) (ks : list page) :
  incl ks (keys c) ->
  forall st, keys (fst st) = keys c -> keys (fst (fold_left (visit c d) ks st)) = keys c.
Proof.
  induction ks as [|k ks IH]; intros Hincl [r cnt] Hk; cbn [fold_left]; [exact Hk|].
  apply IH; [intros x Hx; apply Hincl; now right|].
  cbn [fst] in Hk. rewrite visit_eq. simpl. rewrite keys_update; [exact Hk|].
  rewrite Hk. apply Hincl. now left.
Qed.

Lemma iterate_loop_keys (c : corpus) (d : Q) (fuel : nat) :
  forall r cnt r', keys r = keys c -> iterate_loop c d fuel r cnt = Some r' -> keys r' = keys c.
Proof.
  induction fuel as [|fuel IH]; intros r cnt r' Hk Hrun; [discriminate|].
  simpl in Hrun.
  pose proof (visits_keys c d (keys c) (incl_refl _) (r, cnt) Hk) as Hk'.
  unfold pass in Hrun. destruct (fold_left (visit c d) (keys c) (r, cnt)) as [r1 cnt1].
  simpl in Hk'. destruct (Nat.eqb cnt1 (List.length c)).
  - injection Hrun as <-. exact Hk'.
  - exact (IH r1 0%nat r' Hk' Hrun).
Qed.

(** X4: the distribution [iterate_pagerank] returns has exactly the
    corpus's pages as keys, in the corpus's order. *)
Theorem iterate_pagerank_keys (c : corpus) (d : Q) (fuel : nat) (r : dict Q) :
  iterate_pagerank c d fuel = Some r -> keys r = keys c.
Proof. apply iterate_loop_keys. apply init_ranks_keys. Qed.

Lemma iterate_pagerank_keys_witness :
  exists r, iterate_pagerank corpus3 (85 # 100) 20 = Some r /\ keys r = keys corpus3.
Proof.
  eexists. split; [vm_compute; reflexivity|].
  apply (iterate_pagerank_keys corpus3 (85 # 100) 20). vm_compute. reflexivity.
Defined.

Lemma Forall_update {A : Type} (P : A -> Prop) (m : dict A) (k : page) (v : A) :
  Forall P (map snd m) -> P v -> Forall P (map snd (update k v m)).
Proof.
  induction m as [|[k' v'] m IH]; simpl; intros Hm Hv; [now constructor|].
  inversion Hm as [|x l Hx Hl]. subst.
  destruct (String.eqb k k'); simpl; constructor; auto.
Qed.

Lemma get_Forall (P : Q -> Prop) (r : dict Q) (p : page) :
  Forall P (map snd r) -> In p (keys r) -> P (get r p).
Proof.
  intros HP Hp. destruct (lookup_keys r p Hp) as [v Hv]. unfold get. rewrite Hv.
  rewrite Forall_forall in HP. apply HP, (in_map snd _ _ (lookup_In _ _ _ Hv)).
Qed.

Lemma get_nonneg (r : dict Q) (p : page) :
  Forall (fun v => 0 <= v) (map snd r) -> 0 <= get r p.
Proof.
  intros HP. unfold get. destruct (lookup p r) as [v|] eqn:Hv; [|apply Qle_refl].
  rewrite Forall_forall in HP. apply HP, (in_map snd _ _ (lookup_In _ _ _ Hv)).
Qed.

Lemma sumQ_nonneg_le (l : list Q) : Forall (fun w => 0 <= w) l -> 0 <= sumQ l.
Proof. induction 1 as [|x l Hx _ IH]; [apply Qle_refl|]. rewrite sumQ_cons. lra. Qed.

Lemma div_nonneg (x y : Q) : 0 <= x -> 0 <= y -> 0 <= x / y.
Proof. intros Hx Hy. unfold Qdiv. apply Qmult_le_0_compat; [exact Hx|]. now apply Qinv_le_0_compat. Qed.

Lemma len_nonneg {A : Type} (l : list A) : 0 <= len l.
Proof. unfold len, Qle. simpl. lia. Qed.

(** With non-negative ranks, a page's new rank is at least [(1 - d)/N]. *)
Lemma new_rank_lower (c : corpus) (d : Q) (r : dict Q) (p : page) :
  In p (keys c) -> 0 <= d ->
  Forall (fun v => 0 <= v) (map snd r) -> (1 - d) / len c <= new_rank c d r p.
Proof.
  intros Hp Hd Hr. rewrite new_rank_formula by exact Hp. unfold spec_rank_update.
  assert (Hs : 0 <= sumQ (map (fun '(q, L) =>
                   match L with
                   | [] => get r q / len c
                   | _ => if mem p L then get r q / len L else 0
                   end) c)).
  { apply sumQ_nonneg_le, Forall_forall. intros w Hw. apply in_map_iff in Hw.
    destruct Hw as [[q L] [<- _]].
    destruct L; [|destruct (mem p _); [|apply Qle_refl]];
      apply div_nonneg; [apply get_nonneg, Hr|apply len_nonneg|apply get_nonneg, Hr|apply len_nonneg]. }
  pose proof (Qmult_le_0_compat _ _ Hd Hs). lra.
Qed.

Lemma Forall_pos_nonneg (l : list Q) :
  Forall (fun v => 0 < v) l -> Forall (fun v => 0 <= v) l.
Proof. apply Forall_impl. intros v. apply Qlt_le_weak. Qed.

Lemma visits_pos (c : corpus) (d : Q) (ks : list page) :
  incl ks (keys c) -> 0 <= d -> d < 1 ->
  forall st, Forall (fun v => 0 < v) (map snd (fst st)) ->
  Forall (fun v => 0 < v) (map snd (fst (fold_left (visit c d) ks st))).
Proof.
  intros Hincl Hd0 Hd1. induction ks as [|k ks IH]; intros [r cnt] Hr; cbn [fold_left]; [exact Hr|].
  apply IH; [intros x Hx; apply Hincl; now right|].
  rewrite visit_eq. cbn [fst]. apply Forall_update; [exact Hr|].
  assert (Hk : In k (keys c)) by (apply Hincl; now left).
  assert (Hc : c <> []) by (intros ->; contradiction).
  pose proof (random_prob_pos c d Hc Hd1).
  cbn [fst] in Hr. pose proof (new_rank_lower c d r k Hk Hd0 (Forall_pos_nonneg _ Hr)).
  cbv beta. rewrite Qred_correct. lra.
Qed.

Lemma iterate_loop_pos (c : corpus) (d : Q) (fuel : nat) :
  0 <= d -> d < 1 ->
  forall r cnt r', Forall (fun v => 0 < v) (map snd r) ->
  iterate_loop c d fuel r cnt = Some r' -> Forall (fun v => 0 < v) (map snd r').
Proof.
  intros Hd0 Hd1. induction fuel as [|fuel IH]; intros r cnt r' Hr Hrun; [discriminate|].
  cbn [iterate_loop] in Hrun.
  pose proof (visits_pos c d (keys c) (incl_refl _) Hd0 Hd1 (r, cnt) Hr) as Hr'.
  change (fold_left (visit c d) (keys c) (r, cnt)) with (pass c d r cnt) in Hr'.
  destruct (pass c d r cnt) as [r1 cnt1].
  simpl in Hr'. destruct (Nat.eqb cnt1 (List.length c)).
  - injection Hrun as <-. exact Hr'.
  - exact (IH r1 0%nat r' Hr' Hrun).
Qed.

(** X5: for a damping factor in [[0, 1)], every rank [iterate_pagerank]
    returns is positive. *)
Theorem iterate_pagerank_positive (c : corpus) (d : Q) (fuel : nat) (r : dict Q) :
  0 <= d -> d < 1 -> iterate_pagerank c d fuel = Some r ->
  Forall (fun v => 0 < v) (map snd r).
Proof.
  intros Hd0 Hd1. apply iterate_loop_pos; [exact Hd0|exact Hd1|].
  unfold init_ranks. destruct c as [|e c]; [constructor|].
  rewrite map_map. apply Forall_forall. intros v Hv. apply in_map_iff in Hv.
  destruct Hv as [[p l] [<- _]]. simpl.
  assert (H : 0 < len (e :: c)) by (apply len_gt0; discriminate).
  unfold Qdiv. rewrite Qmult_1_l. now apply Qinv_lt_0_compat.
Qed.

Lemma iterate_pagerank_positive_witness :
  0 <= 85 # 100 /\ 85 # 100 < 1 /\
  exists r, iterate_pagerank corpus3 (85 # 100) 20 = Some r /\ Forall (fun v => 0 < v) (map snd r).
Proof.
  assert (H0 : 0 <= 85 # 100) by (apply Qle_bool_iff; reflexivity).
  assert (H1 : 85 # 100 < 1) by reflexivity.
  split; [exact H0|]. split; [exact H1|].
  eexists. split; [vm_compute; reflexivity|].
  apply (iterate_pagerank_positive corpus3 (85 # 100) 20 _ H0 H1). vm_compute. reflexivity.
Defined.

Lemma new_rank_damping_zero (c : corpus) (r : dict Q) (p : page) :
  new_rank c 0 r p == 1 / len c.
Proof. unfold new_rank. cbv zeta. unfold Qdiv. ring. Qed.

Lemma visits_uniform (c : corpus) (ks : list page) :
  incl ks (keys c) ->
  forall r cnt, keys r = keys c -> Forall (fun v => v == 1 / len c) (map snd r) ->
  keys (fst (fold_left (visit c 0) ks (r, cnt))) = keys c /\
  Forall (fun v => v == 1 / len c) (map snd (fst (fold_left (visit c 0) ks (r, cnt)))) /\
  snd (fold_left (visit c 0) ks (r, cnt)) = (cnt + List.length ks)%nat.
Proof.
  induction ks as [|k ks IH]; intros Hincl r cnt Hk Hr; cbn [fold_left].
  - simpl. repeat split; [exact Hk|exact Hr|lia].
  - assert (Hkin : In k (keys c)) by (apply Hincl; now left).
    assert (Hget : get r k == 1 / len c)
      by (apply (get_Forall (fun v => v == 1 / len c)); [exact Hr|now rewrite Hk]).
    assert (Hw : within (get r k) (new_rank c 0 r k) = true).
    { apply within_iff. rewrite Hget, new_rank_damping_zero. lra. }
    rewrite visit_eq, Hw.
    destruct (IH (fun x Hx => Hincl x (or_intror Hx)) (update k (Qred (new_rank c 0 r k)) r) (S cnt))
      as (Hk' & Hr' & Hc').
    + rewrite keys_update; [exact Hk|now rewrite Hk].
    + apply Forall_update; [exact Hr|]. cbv beta. now rewrite Qred_correct, new_rank_damping_zero.
    + split; [exact Hk'|]. split; [exact Hr'|]. rewrite Hc'. simpl. lia.
Qed.

(** X6: with damping factor 0, [iterate_pagerank] stops after its first
    pass and gives every page rank [1/N]. *)
Theorem iterate_damping_zero (c : corpus) (fuel : nat) :
  exists r, iterate_pagerank c 0 (S fuel) = Some r /\ keys r = keys c /\
    Forall (fun v => v == 1 / len c) (map snd r).
Proof.
  assert (Hinit : Forall (fun v => v == 1 / len c) (map snd (init_ranks c))).
  { unfold init_ranks. rewrite map_map. apply Forall_forall. intros v Hv.
    apply in_map_iff in Hv. destruct Hv as [[p l] [<- _]]. reflexivity. }
  destruct (visits_uniform c (keys c) (incl_refl _) (init_ranks c) 0 (init_ranks_keys c) Hinit)
    as (Hk & Hr & Hcnt).
  change (fold_left (visit c 0) (keys c) (init_ranks c, 0%nat)) with (pass c 0 (init_ranks c) 0)
    in Hk, Hr, Hcnt.
  unfold iterate_pagerank. cbn [iterate_loop].
  destruct (pass c 0 (init_ranks c) 0) as [r1 cnt1]. simpl in Hk, Hr, Hcnt.
  rewrite Hcnt. unfold keys. rewrite length_map, Nat.eqb_refl.
  exists r1. repeat split; assumption.
Qed.

(** ** [sample_pagerank]: edge cases of [n] and of the damping factor *)

(** With [n <= 1] the loop does not run: only the start page is counted. *)
Lemma sample_counts_start (c : corpus) (d : Q) (n : Z) (rnd : draws) :
  c <> [] -> (n <= 1)%Z ->
  exists m, sample_counts c d n rnd = Ok m /\ keys m = keys c /\ total m = 1%nat.
Proof.
  intros Hc Hn. unfold sample_counts.
  assert (Hk : keys c <> []) by (destruct c; [congruence|discriminate]).
  destruct (choice_in (keys c) (rnd 0%nat) Hk) as (q & Hq & Hqin). rewrite Hq. cbn [bind].
  rewrite <- (init_counts_keys c) in Hqin.
  destruct (incr_spec _ q Hqin) as (m1 & Hm1 & Hk1 & Ht1). rewrite Hm1. cbn [bind].
  rewrite init_counts_keys in Hk1. rewrite init_counts_total in Ht1.
  replace (Z.to_nat (n - 1)) with 0%nat by lia.
  exists m1. repeat split; assumption.
Qed.

(** X7: on a non-empty corpus, [sample_pagerank] with [n = 0] raises
    [ZeroDivisionError] (the start page is counted, then divided by 0). *)
Theorem sample_pagerank_zero_samples (c : corpus) (d : Q) (rnd : draws) :
  c <> [] -> sample_pagerank c d 0 rnd = Err ZeroDivisionError.
Proof.
  intros Hc. destruct (sample_counts_start c d 0 rnd Hc ltac:(lia)) as (m & Hrun & Hk & _).
  unfold sample_pagerank. rewrite Hrun. cbn [bind]. unfold divide.
  destruct m; [destruct c; [congruence|discriminate]|reflexivity].
Qed.

Lemma sample_pagerank_zero_samples_witness :
  corpus3 <> [] /\ sample_pagerank corpus3 (85 # 100) 0 (fun i => i) = Err ZeroDivisionError.
Proof.
  assert (H : corpus3 <> []) by discriminate.
  split; [exact H|]. exact (sample_pagerank_zero_samples corpus3 (85 # 100) (fun i => i) H).
Defined.

(** X8: on a non-empty corpus, [sample_pagerank] with [n < 0] raises
    nothing and returns values summing to [1/n], a negative number. *)
Theorem sample_pagerank_negative_samples (c : corpus) (d : Q) (n : Z) (rnd : draws) :
  c <> [] -> (n < 0)%Z ->
  exists r, sample_pagerank c d n rnd = Ok r /\ keys r = keys c /\
    sumQ (map snd r) == 1 / inject_Z n /\ sumQ (map snd r) < 0.
Proof.
  intros Hc Hn. destruct (sample_counts_start c d n rnd Hc ltac:(lia)) as (m & Hrun & Hk & Ht).
  assert (Hm : m <> []) by (intros ->; destruct c; [congruence|discriminate]).
  unfold sample_pagerank. rewrite Hrun. cbn [bind]. unfold divide.
  destruct m as [|e m]; [congruence|].
  destruct (Z.eqb_spec n 0) as [|_]; [lia|].
  eexists. split; [reflexivity|].
  assert (Hsum : sumQ (map snd (map (fun '(p, k) => (p, inject_Z (Z.of_nat k) / inject_Z n)) (e :: m)))
                 == 1 / inject_Z n) by (rewrite sumQ_divide, Ht; reflexivity).
  split; [|split; [exact Hsum|]].
  - rewrite <- Hk. unfold keys. rewrite map_map. apply map_ext. now intros [p k].
  - rewrite Hsum. unfold Qdiv. rewrite Qmult_1_l.
    destruct n as [|p|p]; [lia|lia|]. unfold Qlt. simpl. lia.
Qed.

Lemma sample_pagerank_negative_samples_witness :
  corpus3 <> [] /\ (-2 < 0)%Z /\
  exists r, sample_pagerank corpus3 (85 # 100) (-2) (fun i => i) = Ok r /\ keys r = keys corpus3 /\
    sumQ (map snd r) == 1 / inject_Z (-2) /\ sumQ (map snd r) < 0.
Proof.
  assert (H : corpus3 <> []) by discriminate.
  assert (Hn : (-2 < 0)%Z) by lia.
  split; [exact H|]. split; [exact Hn|].
  exact (sample_pagerank_negative_samples corpus3 (85 # 100) (-2) (fun i => i) H Hn).
Defined.

(** X9: with damping factor 1, if the start page drawn is dangling and
    [n >= 2], [sample_pagerank] raises [ValueError]: every weight passed to
    [random.choices] is 0. *)
Theorem sample_pagerank_damping_one_dangling (c : corpus) (p : page) (n : Z) (rnd : draws) :
  lookup p c = Some [] -> choice (keys c) (rnd 0%nat) = Ok p -> (2 <= n)%Z ->
  sample_pagerank c 1 n rnd = Err ValueError.
Proof.
  intros Hp Hch Hn. unfold sample_pagerank, sample_counts. rewrite Hch. cbn [bind].
  assert (Hpin : In p (keys (map (fun '(p, _) => (p, 0%nat)) c))).
  { rewrite init_counts_keys. apply (in_map fst _ _ (lookup_In _ _ _ Hp)). }
  destruct (incr_spec _ p Hpin) as (m1 & Hm1 & _ & _). rewrite Hm1. cbn [bind].
  destruct (Z.to_nat (n - 1)) as [|k] eqn:Hk; [lia|].
  cbn [sample_loop]. rewrite (transition_model_ok c p [] 1 Hp). cbn [bind].
  unfold choices. rewrite map_snd_map_keys. cbn [mem existsb].
  assert (Hz : Qle_bool (sumQ (map (fun _ => (1 - 1) / len c) (keys c))) 0 = true).
  { apply Qle_bool_iff. rewrite sumQ_const. unfold Qdiv.
    setoid_replace (len (keys c) * ((1 - 1) * / len c)) with 0 by ring. apply Qle_refl. }
  rewrite Hz. reflexivity.
Qed.

Lemma sample_pagerank_damping_one_dangling_witness :
  lookup "A"%string corpus_dangling = Some [] /\
  choice (keys corpus_dangling) ((fun _ => 0%nat) 0%nat) = Ok "A"%string /\ (2 <= 2)%Z /\
  sample_pagerank corpus_dangling 1 2 (fun _ => 0%nat) = Err ValueError.
Proof.
  assert (H1 : lookup "A"%string corpus_dangling = Some []) by reflexivity.
  assert (H2 : choice (keys corpus_dangling) ((fun _ => 0%nat) 0%nat) = Ok "A"%string)
    by reflexivity.
  assert (H3 : (2 <= 2)%Z) by lia.
  split; [exact H1|]. split; [exact H2|]. split; [exact H3|].
  exact (sample_pagerank_damping_one_dangling corpus_dangling "A"%string 2 (fun _ => 0%nat) H1 H2 H3).
Defined.

(** ** [transition_model]: signs, and on the corpus [crawl] builds *)

(** X10: for a page of the corpus and a damping factor in [[0, 1)],
    [transition_model] gives every page of the corpus a positive
    probability. *)
Theorem transition_model_positive (c : corpus) (p : page) (d : Q) :
  In p (keys c) -> 0 <= d -> d < 1 ->
  exists tm, transition_model c p d = Ok tm /\ keys tm = keys c /\
    Forall (fun w => 0 < w) (map snd tm).
Proof.
  intros Hp Hd0 Hd1. destruct (lookup_keys c p Hp) as [L HL].
  exact (transition_model_pos c p L d HL Hd0 Hd1).
Qed.

Lemma transition_model_positive_witness :
  In "A"%string (keys corpus_dangling) /\ 0 <= 85 # 100 /\ 85 # 100 < 1 /\
  exists tm, transition_model corpus_dangling "A"%string (85 # 100) = Ok tm /\
    keys tm = keys corpus_dangling /\ Forall (fun w => 0 < w) (map snd tm).
Proof.
  assert (H1 : In "A"%string (keys corpus_dangling)) by (left; reflexivity).
  assert (H2 : 0 <= 85 # 100) by (apply Qle_bool_iff; reflexivity).
  assert (H3 : 85 # 100 < 1) by reflexivity.
  split; [exact H1|]. split; [exact H2|]. split; [exact H3|].
  exact (transition_model_positive corpus_dangling "A"%string (85 # 100) H1 H2 H3).
Defined.

(** The total of [transition_model] at a page with links, on a well-formed
    corpus, for any damping factor. *)
Lemma transition_model_sum_linked (c : corpus) (p : page) (L : list page) (d : Q) :
  well_formed c -> lookup p c = Some L -> L <> [] ->
  exists tm, transition_model c p d = Ok tm /\ sumQ (map snd tm) == 1.
Proof.
  intros [Hnd Hwf] Hp HL.
  destruct (Hwf p L (lookup_In _ _ _ Hp)) as [HndL Hincl].
  eexists. split; [apply transition_model_ok, Hp|].
  rewrite map_snd_map_keys, sumQ_if.
  unfold len at 1. rewrite filter_mem_length by assumption. fold (len L).
  rewrite len_keys. destruct L as [|x L']; [contradiction|].
  field. split; apply len_pos; [eapply keys_nonempty; eauto|discriminate].
Qed.

(** X11: on any corpus [crawl] builds, and for any damping factor,
    [transition_model] at a page with links returns values summing to 1,
    and at a page without links values summing to [1 - d]. *)
Theorem crawl_transition_model_sum (entries : list (string * list string)) (f : page) (d : Q) :
  In f (keys (crawl entries)) ->
  exists L tm, lookup f (crawl entries) = Some L /\
    transition_model (crawl entries) f d = Ok tm /\
    sumQ (map snd tm) == match L with [] => 1 - d | _ => 1 end.
Proof.
  intros Hf. destruct (lookup_keys _ f Hf) as [L HL]. exists L.
  destruct L as [|x L'].
  - destruct (transition_model_dangling _ f d HL) as (tm & Htm & _ & _ & Hs).
    exists tm. repeat split; assumption.
  - destruct (crawl_wf entries) as [Hwf _].
    destruct (transition_model_sum_linked _ f (x :: L') d Hwf HL ltac:(discriminate))
      as (tm & Htm & Hs).
    exists tm. repeat split; assumption.
Qed.

Lemma crawl_transition_model_sum_witness :
  In "a.html"%string (keys (crawl entries_example)) /\
  exists L tm, lookup "a.html"%string (crawl entries_example) = Some L /\
    transition_model (crawl entries_example) "a.html"%string (85 # 100) = Ok tm /\
    sumQ (map snd tm) == match L with [] => 1 - (85 # 100) | _ => 1 end.
Proof.
  assert (H : In "a.html"%string (keys (crawl entries_example))) by (left; reflexivity).
  split; [exact H|]. exact (crawl_transition_model_sum entries_example "a.html"%string (85 # 100) H).
Defined.
